(** * LogicFlow engine: the Scheduler (dispatcher) and the Recorder.

    Shallow embedding of [Scheduler] (src/unnamed/part_000) and of
    [Recorder] (src/packages/engine/src/recorder/index.ts).

    The JS [Map]s of the scheduler are stdpp [gmap]s keyed by strings.
    Asynchrony is modelled by splitting each [async] method at its [await]:
    the synchronous prefix is one function on the state, and the code run
    after the awaited node call settles is another function that receives
    the value the node returned.  Emitted events, calls to
    [recorder.addTask] and started node executions are logged in the
    state, in the order they happen. *)

From stdpp Require Import base gmap list strings.

(** ** Data model ([types.d], [constant]) *)

Inductive FlowStatus := COMPLETED | INTERRUPTED.

Definition FlowStatus_eqb (a b : FlowStatus) : bool :=
  match a, b with
  | COMPLETED, COMPLETED | INTERRUPTED, INTERRUPTED => true
  | _, _ => false
  end.

(** Opaque node-defined payloads ([properties], [detail]). *)
Definition Payload := string.

Record NodeParam := mkNodeParam {
  np_executionId : string;
  np_nodeId : string;
}.

Record TaskParam := mkTaskParam {
  tp_executionId : string;
  tp_nodeId : string;
  tp_taskId : string;
}.

(** An outgoing edge; only its [target] is read. *)
Record Edge := mkEdge { target : string }.

Record ActionResult := mkActionResult {
  ar_status : FlowStatus;
  ar_nodeType : string;
  ar_properties : Payload;
  ar_outgoing : list Edge;
  ar_detail : Payload;
}.

Record ExtraInfo := mkExtraInfo {
  ei_status : FlowStatus;
  ei_detail : Payload;
}.

(** [TaskResult = { extraInfo? } & NextTaskParam]; the argument of [next]
    is a [NextTaskParam], i.e. a [TaskResult] without [extraInfo]. *)
Record TaskResult := mkTaskResult {
  tr_executionId : string;
  tr_nodeId : string;
  tr_taskId : string;
  tr_nodeType : string;
  tr_properties : Payload;
  tr_outgoing : list Edge;
  tr_extraInfo : option ExtraInfo;
}.

(** The object handed to [recorder.addTask]. *)
Record RecorderData := mkRecorderData {
  rd_executionId : string;
  rd_taskId : string;
  rd_nodeId : string;
  rd_nodeType : string;
  rd_timestamp : nat;
  rd_properties : Payload;
  rd_extraInfo : option ExtraInfo;
}.

Record RunParams := mkRunParams {
  rp_executionId : string;
  rp_nodeId : option string;
  rp_taskId : option string;
}.

Record ResumeParam := mkResumeParam {
  rs_executionId : string;
  rs_nodeId : string;
  rs_taskId : string;
  rs_data : Payload;
}.

(** Payloads of [EVENT_INSTANCE_COMPLETE] and [EVENT_INSTANCE_INTERRUPTED]. *)
Inductive Event :=
| EvInstanceComplete (executionId : string) (nodeId taskId : option string)
    (status : FlowStatus)
| EvInstanceInterrupted (executionId : string) (status : FlowStatus)
    (nodeId taskId : string) (detail : Payload).

(** A node call started by the scheduler ([model.execute] or [model.resume]). *)
Inductive NodeCall :=
| CallExecute (tp : TaskParam)
| CallResume (rp : ResumeParam).

(** ** Scheduler state *)

Record Scheduler := mkScheduler {
  nodeQueueMap : gmap string (list NodeParam);
  taskRunningMap : gmap string (gmap string TaskParam);
  events : list Event;          (* emitted events, oldest first *)
  records : list RecorderData;  (* calls to [recorder.addTask], oldest first *)
  calls : list NodeCall;        (* node calls started, oldest first *)
  now : nat;                    (* the value [Date.now()] reads *)
}.

Definition set_nodeQueueMap (s : Scheduler) q : Scheduler :=
  mkScheduler q (taskRunningMap s) (events s) (records s) (calls s) (now s).
Definition set_taskRunningMap (s : Scheduler) r : Scheduler :=
  mkScheduler (nodeQueueMap s) r (events s) (records s) (calls s) (now s).
Definition emit (s : Scheduler) (ev : Event) : Scheduler :=
  mkScheduler (nodeQueueMap s) (taskRunningMap s) (events s ++ [ev])
    (records s) (calls s) (now s).
Definition push_record (s : Scheduler) (d : RecorderData) : Scheduler :=
  mkScheduler (nodeQueueMap s) (taskRunningMap s) (events s)
    (records s ++ [d]) (calls s) (now s).
Definition start_call (s : Scheduler) (c : NodeCall) : Scheduler :=
  mkScheduler (nodeQueueMap s) (taskRunningMap s) (events s) (records s)
    (calls s ++ [c]) (now s).

Definition init (t : nat) : Scheduler := mkScheduler ∅ ∅ [] [] [] t.

(** JS truthiness of a string: only [""] is falsy. *)
Definition truthy (x : string) : bool := negb (String.eqb x "").

(** ** Scheduler methods *)

(** [addTask]: create the queue if absent, then [push]. *)
Definition addTask (s : Scheduler) (np : NodeParam) : Scheduler :=
  let executionId := np_executionId np in
  let q := match nodeQueueMap s !! executionId with
           | Some q => q
           | None => []
           end in
  set_nodeQueueMap s (<[executionId := q ++ [np]]> (nodeQueueMap s)).

(** [getNextNode]: [shift] the head of the queue, if any. *)
Definition getNextNode (s : Scheduler) (executionId : string)
  : option NodeParam * Scheduler :=
  match nodeQueueMap s !! executionId with
  | None | Some [] => (None, s)
  | Some (n :: q) =>
      (Some n, set_nodeQueueMap s (<[executionId := q]> (nodeQueueMap s)))
  end.

Definition pushTaskToRunningMap (s : Scheduler) (tp : TaskParam) : Scheduler :=
  let executionId := tp_executionId tp in
  let m := match taskRunningMap s !! executionId with
           | Some m => m
           | None => ∅
           end in
  set_taskRunningMap s
    (<[executionId := <[tp_taskId tp := tp]> m]> (taskRunningMap s)).

Definition removeTaskFromRunningMap (s : Scheduler)
    (executionId taskId : string) : Scheduler :=
  if negb (truthy taskId) then s else
  match taskRunningMap s !! executionId with
  | None => s
  | Some m =>
      set_taskRunningMap s (<[executionId := delete taskId m]> (taskRunningMap s))
  end.

(** [hasRunningTask] answers and evicts an empty running map. *)
Definition hasRunningTask (s : Scheduler) (executionId : string)
  : bool * Scheduler :=
  match taskRunningMap s !! executionId with
  | None => (false, s)
  | Some m =>
      if Nat.eqb (size m) 0
      then (false, set_taskRunningMap s (delete executionId (taskRunningMap s)))
      else (true, s)
  end.

Definition saveTaskResult (s : Scheduler) (data : TaskResult) : Scheduler :=
  push_record s
    (mkRecorderData (tr_executionId data) (tr_taskId data) (tr_nodeId data)
       (tr_nodeType data) (now s) (tr_properties data) None).

Definition interrupted (s : Scheduler) (execResult : ActionResult)
    (taskParam : TaskParam) : Scheduler :=
  emit s (EvInstanceInterrupted (tp_executionId taskParam) INTERRUPTED
            (tp_nodeId taskParam) (tp_taskId taskParam) (ar_detail execResult)).

(** [exec], part before the [await]: [model.execute] is started. *)
Definition exec_start (s : Scheduler) (taskParam : TaskParam) : Scheduler :=
  start_call s (CallExecute taskParam).

(** [exec], part after the [await], given the value [execResult]
    returned by [model.execute] ([None] for [undefined]). *)
Definition exec_settle (s : Scheduler) (taskParam : TaskParam)
    (execResult : option ActionResult) : Scheduler :=
  match execResult with
  | Some r =>
      if FlowStatus_eqb (ar_status r) INTERRUPTED then
        let s1 := interrupted s r taskParam in
        let s2 := saveTaskResult s1
                    (mkTaskResult (tp_executionId taskParam) (tp_nodeId taskParam)
                       (tp_taskId taskParam) (ar_nodeType r) (ar_properties r) []
                       (Some (mkExtraInfo (ar_status r) (ar_detail r)))) in
        removeTaskFromRunningMap s2 (tp_executionId taskParam) (tp_taskId taskParam)
      else s
  | None => s
  end.

(** [run]; [newTaskId] is the value [createTaskId()] returns. *)
Definition run (s : Scheduler) (runParams : RunParams) (newTaskId : string)
  : Scheduler :=
  let executionId := rp_executionId runParams in
  let '(currentNode, s1) := getNextNode s executionId in
  match currentNode with
  | Some n =>
      let taskParam := mkTaskParam (np_executionId n) (np_nodeId n) newTaskId in
      exec_start (pushTaskToRunningMap s1 taskParam) taskParam
  | None =>
      let '(b, s2) := hasRunningTask s1 executionId in
      if b then s2
      else emit s2 (EvInstanceComplete executionId (rp_nodeId runParams)
                      (rp_taskId runParams) COMPLETED)
  end.

(** [resume], part before the [await]. *)
Definition resume_start (s : Scheduler) (resumeParam : ResumeParam) : Scheduler :=
  let s1 := pushTaskToRunningMap s
              (mkTaskParam (rs_executionId resumeParam) (rs_nodeId resumeParam)
                 (rs_taskId resumeParam)) in
  start_call s1 (CallResume resumeParam).

(** [resume], part after the [await]: the returned value is discarded. *)
Definition resume_settle (s : Scheduler) (resumeParam : ResumeParam)
    (result : option ActionResult) : Scheduler :=
  s.

Definition resume (s : Scheduler) (resumeParam : ResumeParam)
    (result : option ActionResult) : Scheduler :=
  resume_settle (resume_start s resumeParam) resumeParam result.

(** [next]: the continuation handed to the nodes; [newTaskId] is the
    id [createTaskId()] would return in the final [run]. *)
Definition enqueue_outgoing (s : Scheduler) (executionId : string)
    (outgoing : list Edge) : Scheduler :=
  fold_left (fun st item => addTask st (mkNodeParam executionId (target item)))
    outgoing s.

Definition next (s : Scheduler) (data : TaskResult) (newTaskId : string)
  : Scheduler :=
  let s1 := enqueue_outgoing s (tr_executionId data) (tr_outgoing data) in
  let s2 := saveTaskResult s1 data in
  let s3 := removeTaskFromRunningMap s2 (tr_executionId data) (tr_taskId data) in
  run s3 (mkRunParams (tr_executionId data) (Some (tr_nodeId data))
            (Some (tr_taskId data))) newTaskId.

(** ** Recorder *)

Module Recorder.

(** A value kept in [storage] (after its JSON round trip): an array of
    ids, or a task record. *)
Inductive SValue :=
| SIds (ids : list string)
| SRecord (r : RecorderData).

(** Modelled from the spec: [util/storage] (not in the sources), the
    persistence backend: a key-value store with [getItem] (absent key gives
    [null]), [setItem] and [removeItem]. *)
Definition Storage := gmap string SValue.

Definition getItem (st : Storage) (k : string) : option SValue := st !! k.
Definition setItem (st : Storage) (k : string) (v : SValue) : Storage := <[k := v]> st.
Definition removeItem (st : Storage) (k : string) : Storage := delete k st.

Definition LOGICFLOW_ENGINE_INSTANCES : string := "LOGICFLOW_ENGINE_INSTANCES".

(** [getItem(k) || []] read as an array; [None] when the stored value is a
    record, on which [push] / [forEach] throw a TypeError. *)
Definition ids_or_empty (v : option SValue) : option (list string) :=
  match v with
  | None => Some []
  | Some (SIds l) => Some l
  | Some (SRecord _) => None
  end.

(** [addTask]; [None] when the call throws.  The source awaits
    [getExecutionTasks] between reading the index and writing it back; the
    model runs one call to its end before the next, as calls made one after
    another do (overlapping calls are not modelled). *)
Definition addTask (st : Storage) (task : RecorderData) : option Storage :=
  let executionId := rd_executionId task in
  let taskId := rd_taskId task in
  match getItem st executionId with
  | Some (SRecord _) => None
  | Some (SIds instanceData) =>
      let st1 := setItem st executionId (SIds (instanceData ++ [taskId])) in
      Some (setItem st1 taskId (SRecord task))
  | None =>
      match ids_or_empty (getItem st LOGICFLOW_ENGINE_INSTANCES) with
      | None => None
      | Some instance =>
          let st0 := setItem st LOGICFLOW_ENGINE_INSTANCES
                       (SIds (instance ++ [executionId])) in
          let st1 := setItem st0 executionId (SIds [taskId]) in
          Some (setItem st1 taskId (SRecord task))
      end
  end.

Definition getTask (st : Storage) (taskId : string) : option SValue :=
  getItem st taskId.

Definition getExecutionTasks (st : Storage) (executionId : string) : option SValue :=
  getItem st executionId.

(** The body of [instance.forEach] in [clear]: remove the index, then read
    it back and remove the records it lists. *)
Definition clear_instance (st : Storage) (executionId : string) : option Storage :=
  let st1 := removeItem st executionId in
  match ids_or_empty (getItem st1 executionId) with
  | None => None
  | Some instanceData => Some (fold_left removeItem instanceData st1)
  end.

Fixpoint clear_instances (st : Storage) (ids : list string) : option Storage :=
  match ids with
  | [] => Some st
  | e :: rest =>
      match clear_instance st e with
      | None => None
      | Some st' => clear_instances st' rest
      end
  end.

Definition clear (st : Storage) : option Storage :=
  match ids_or_empty (getItem st LOGICFLOW_ENGINE_INSTANCES) with
  | None => None
  | Some instance =>
      match clear_instances st instance with
      | None => None
      | Some st' => Some (removeItem st' LOGICFLOW_ENGINE_INSTANCES)
      end
  end.

End Recorder.

(** ** Concrete inputs *)

Definition ex_node : NodeParam := mkNodeParam "e1" "n1".
Definition ex_record : RecorderData :=
  mkRecorderData "e1" "t1" "n1" "task" 0 "{}" None.

(** The linear lifecycle of one node: seeded, launched, settled by [next]. *)
Definition ex_lifecycle : Scheduler :=
  let s1 := addTask (init 0) ex_node in
  let s2 := run s1 (mkRunParams "e1" None None) "t1" in
  next s2 (mkTaskResult "e1" "n1" "t1" "task" "{}" [] None) "t2".

(** ** Derived views of the state *)

(** The ready queue of an instance, [[]] when absent. *)
Definition queue_of (s : Scheduler) (executionId : string) : list NodeParam :=
  match nodeQueueMap s !! executionId with Some q => q | None => [] end.

(** [!currentTaskQueue || currentTaskQueue.length === 0] *)
Definition queue_empty (s : Scheduler) (executionId : string) : bool :=
  match nodeQueueMap s !! executionId with
  | None | Some [] => true
  | Some _ => false
  end.

(** [!runningMap || runningMap.size === 0] *)
Definition running_empty (s : Scheduler) (executionId : string) : bool :=
  match taskRunningMap s !! executionId with
  | None => true
  | Some m => Nat.eqb (size m) 0
  end.

(** The running entry of a task, if any. *)
Definition running_entry (s : Scheduler) (executionId taskId : string)
  : option TaskParam :=
  taskRunningMap s !! executionId ≫= lookup taskId.

(** A sequence of [addTask] calls on one instance. *)
Definition addTasks (s : Scheduler) (executionId : string) (nodeIds : list string)
  : Scheduler :=
  fold_left (fun st n => addTask st (mkNodeParam executionId n)) nodeIds s.

(** A sequence of [run] calls on one instance; [ids] are the successive
    values of [createTaskId()]. *)
Definition run_all (s : Scheduler) (executionId : string) (ids : list string)
  : Scheduler :=
  fold_left (fun st id => run st (mkRunParams executionId None None) id) ids s.

(** The node call [run] starts for a queued node and a fresh task id. *)
Definition launch_call (n : NodeParam) (id : string) : NodeCall :=
  CallExecute (mkTaskParam (np_executionId n) (np_nodeId n) id).

(** ** Lemmas *)

Lemma run_events (s : Scheduler) (rp : RunParams) (id : string) :
  events (run s rp id) =
  events s ++ (if queue_empty s (rp_executionId rp) && running_empty s (rp_executionId rp)
               then [EvInstanceComplete (rp_executionId rp) (rp_nodeId rp)
                       (rp_taskId rp) COMPLETED]
               else []).
Proof.
  unfold run, getNextNode, queue_empty, running_empty, hasRunningTask.
  destruct (nodeQueueMap s !! rp_executionId rp) as [[|n q]|]; simpl;
    try (rewrite app_nil_r; reflexivity);
    destruct (taskRunningMap s !! rp_executionId rp) as [m|]; simpl;
    try reflexivity;
    destruct (Nat.eqb (size m) 0); simpl; try reflexivity;
    rewrite app_nil_r; reflexivity.
Qed.

Lemma run_calls_empty (s : Scheduler) (rp : RunParams) (id : string) :
  queue_empty s (rp_executionId rp) = true ->
  calls (run s rp id) = calls s.
Proof.
  unfold run, getNextNode, queue_empty, hasRunningTask.
  destruct (nodeQueueMap s !! rp_executionId rp) as [[|n q]|]; simpl;
    try discriminate; intros _;
    destruct (taskRunningMap s !! rp_executionId rp) as [m|]; simpl;
    try reflexivity; destruct (Nat.eqb (size m) 0); reflexivity.
Qed.

Lemma addTask_queue_of (s : Scheduler) (np : NodeParam) (e : string) :
  queue_of (addTask s np) e =
  if String.eqb (np_executionId np) e then queue_of s e ++ [np] else queue_of s e.
Proof.
  unfold queue_of, addTask, set_nodeQueueMap; simpl.
  destruct (String.eqb_spec (np_executionId np) e) as [<-|Hne].
  - rewrite lookup_insert_eq. reflexivity.
  - rewrite lookup_insert_ne by congruence. reflexivity.
Qed.

Lemma addTask_calls (s : Scheduler) (np : NodeParam) :
  calls (addTask s np) = calls s.
Proof. reflexivity. Qed.

Lemma addTasks_queue_of (s : Scheduler) (e : string) (ns : list string) :
  queue_of (addTasks s e ns) e = queue_of s e ++ map (mkNodeParam e) ns.
Proof.
  revert s; induction ns as [|n ns IH]; intros s; simpl.
  - rewrite app_nil_r; reflexivity.
  - unfold addTasks in *; simpl. rewrite IH, addTask_queue_of, String.eqb_refl.
    rewrite <- app_assoc; reflexivity.
Qed.

Lemma addTasks_calls (s : Scheduler) (e : string) (ns : list string) :
  calls (addTasks s e ns) = calls s.
Proof.
  revert s; induction ns as [|n ns IH]; intros s; [reflexivity|].
  unfold addTasks in *; simpl. rewrite IH. reflexivity.
Qed.

(** [run] on a non-empty queue pops its head and starts it. *)
Lemma run_pop (s : Scheduler) (e id : string) (n : NodeParam) (q : list NodeParam) :
  queue_of s e = n :: q ->
  calls (run s (mkRunParams e None None) id) = calls s ++ [launch_call n id] /\
  queue_of (run s (mkRunParams e None None) id) e = q.
Proof.
  unfold queue_of, run, getNextNode; simpl.
  destruct (nodeQueueMap s !! e) as [l|]; [|discriminate].
  intros ->; simpl. split; [reflexivity|].
  unfold exec_start, start_call, pushTaskToRunningMap, set_taskRunningMap,
    set_nodeQueueMap; simpl. rewrite lookup_insert_eq. reflexivity.
Qed.

Lemma run_all_fifo (s : Scheduler) (e : string) (ids : list string) :
  length ids = length (queue_of s e) ->
  calls (run_all s e ids) = calls s ++ zip_with launch_call (queue_of s e) ids.
Proof.
  revert s; induction ids as [|id ids IH]; intros s Hlen.
  - simpl. destruct (queue_of s e); [|discriminate]. simpl.
    rewrite app_nil_r; reflexivity.
  - destruct (queue_of s e) as [|n q] eqn:Hq; [discriminate|].
    simpl in Hlen. unfold run_all; simpl.
    destruct (run_pop s e id n q Hq) as [Hc Hq'].
    fold (run_all (run s (mkRunParams e None None) id) e ids).
    rewrite IH by (rewrite Hq'; lia).
    rewrite Hc, Hq', <- app_assoc; reflexivity.
Qed.

Lemma removeTask_entry (s : Scheduler) (e t : string) :
  t <> "" -> running_entry (removeTaskFromRunningMap s e t) e t = None.
Proof.
  intros Ht. unfold removeTaskFromRunningMap, truthy, running_entry.
  destruct (String.eqb_spec t "") as [|_]; [contradiction|]; simpl.
  destruct (taskRunningMap s !! e) as [m|] eqn:Hm; simpl.
  - rewrite lookup_insert_eq; simpl. apply lookup_delete_eq.
  - rewrite Hm; reflexivity.
Qed.

Lemma enqueue_outgoing_queue_of (s : Scheduler) (e : string) (out : list Edge) :
  queue_of (enqueue_outgoing s e out) e =
  queue_of s e ++ map (fun item => mkNodeParam e (target item)) out.
Proof.
  revert s; induction out as [|x out IH]; intros s; simpl.
  - rewrite app_nil_r; reflexivity.
  - unfold enqueue_outgoing in *; simpl. rewrite IH, addTask_queue_of.
    simpl. rewrite String.eqb_refl, <- app_assoc; reflexivity.
Qed.

Lemma enqueue_outgoing_logs (s : Scheduler) (e : string) (out : list Edge) :
  events (enqueue_outgoing s e out) = events s /\
  records (enqueue_outgoing s e out) = records s /\
  calls (enqueue_outgoing s e out) = calls s /\
  now (enqueue_outgoing s e out) = now s /\
  taskRunningMap (enqueue_outgoing s e out) = taskRunningMap s.
Proof.
  revert s; induction out as [|x out IH]; intros s; [done|].
  unfold enqueue_outgoing in *; simpl. apply (IH (addTask s _)).
Qed.

(** ** Claims *)

(** C1 (code_bug). On an INTERRUPTED execute result, [exec] builds a
    [TaskResult] with [extraInfo = {status, detail}], but [saveTaskResult]
    copies only executionId, taskId, nodeId, nodeType, timestamp and
    properties: the persisted record has no [extraInfo]. *)
Lemma C1_interrupted_record_has_no_extraInfo :
  records (exec_settle (init 0) (mkTaskParam "e1" "n1" "t1")
             (Some (mkActionResult INTERRUPTED "task" "{}" [] "form42"))) =
  [mkRecorderData "e1" "t1" "n1" "task" 0 "{}" None].
Proof. reflexivity. Qed.

(** C2. [run] emits instance-complete exactly when the instance's ready
    queue is empty or absent and its running map is empty or absent, and
    otherwise emits nothing; in particular [run] right after an [addTask]
    for the instance emits nothing. *)
Theorem C2_run_complete_iff_all_settled :
  (forall (s : Scheduler) (rp : RunParams) (id : string),
     let e := rp_executionId rp in
     ((exists nid tid,
         events (run s rp id) = events s ++ [EvInstanceComplete e nid tid COMPLETED])
      <-> queue_empty s e = true /\ running_empty s e = true) /\
     (queue_empty s e && running_empty s e = false ->
      events (run s rp id) = events s)) /\
  (forall (s : Scheduler) (rp : RunParams) (n id : string),
     events (run (addTask s (mkNodeParam (rp_executionId rp) n)) rp id) = events s).
Proof.
  split.
  - intros s rp id e. rewrite run_events. fold e. split.
    + split.
      * intros (nid & tid & H).
        destruct (queue_empty s e && running_empty s e) eqn:Hb.
        -- apply andb_prop in Hb; exact Hb.
        -- rewrite app_nil_r in H.
           apply (f_equal (@length Event)) in H. rewrite length_app in H.
           simpl in H. lia.
      * intros [-> ->]. simpl. eauto.
    + intros ->. apply app_nil_r.
  - intros s rp n id. rewrite run_events.
    assert (Hq : queue_empty (addTask s (mkNodeParam (rp_executionId rp) n))
                   (rp_executionId rp) = false).
    { unfold queue_empty, addTask, set_nodeQueueMap; simpl.
      rewrite lookup_insert_eq.
      destruct (nodeQueueMap s !! rp_executionId rp) as [q|]; [|reflexivity].
      destruct q; reflexivity. }
    rewrite Hq. simpl. apply app_nil_r.
Qed.

Lemma removeTask_logs (s : Scheduler) (e t : string) :
  nodeQueueMap (removeTaskFromRunningMap s e t) = nodeQueueMap s /\
  events (removeTaskFromRunningMap s e t) = events s /\
  records (removeTaskFromRunningMap s e t) = records s /\
  calls (removeTaskFromRunningMap s e t) = calls s.
Proof.
  unfold removeTaskFromRunningMap.
  destruct (negb (truthy t)); [done|].
  destruct (taskRunningMap s !! e); done.
Qed.

(** C4. When the value returned by [model.execute] has status
    INTERRUPTED, the code after the [await] in [exec] enqueues nothing,
    emits instance-interrupted with executionId, nodeId, taskId and the
    result's detail, removes the task's running entry, and starts no new
    node (no [run]).  The task id is one minted by [createTaskId()] in
    [run], hence non-empty. *)
Theorem C4_interrupted_execute_handling (s : Scheduler) (tp : TaskParam)
    (r : ActionResult) :
  ar_status r = INTERRUPTED ->
  tp_taskId tp <> "" ->
  let s' := exec_settle s tp (Some r) in
  nodeQueueMap s' = nodeQueueMap s /\
  running_entry s' (tp_executionId tp) (tp_taskId tp) = None /\
  events s' = events s ++ [EvInstanceInterrupted (tp_executionId tp) INTERRUPTED
                             (tp_nodeId tp) (tp_taskId tp) (ar_detail r)] /\
  calls s' = calls s.
Proof.
  intros Hst Ht s'. subst s'. unfold exec_settle. rewrite Hst; simpl.
  match goal with |- context [removeTaskFromRunningMap ?s0 _ _] =>
    destruct (removeTask_logs s0 (tp_executionId tp) (tp_taskId tp)) as (Hq & He & _ & Hc);
    pose proof (removeTask_entry s0 (tp_executionId tp) (tp_taskId tp) Ht) as Hr
  end.
  rewrite Hq, He, Hc, Hr. repeat split; reflexivity.
Qed.

Lemma C4_interrupted_execute_handling_witness :
  ar_status (mkActionResult INTERRUPTED "task" "{}" [mkEdge "n2"] "form42") = INTERRUPTED /\
  tp_taskId (mkTaskParam "e1" "n1" "t1") <> "" /\
  (let s' := exec_settle
               (pushTaskToRunningMap (addTask (init 0) (mkNodeParam "e1" "n0"))
                  (mkTaskParam "e1" "n1" "t1"))
               (mkTaskParam "e1" "n1" "t1")
               (Some (mkActionResult INTERRUPTED "task" "{}" [mkEdge "n2"] "form42")) in
   nodeQueueMap s' = nodeQueueMap (pushTaskToRunningMap (addTask (init 0) (mkNodeParam "e1" "n0"))
                                     (mkTaskParam "e1" "n1" "t1")) /\
   running_entry s' "e1" "t1" = None /\
   events s' = events (pushTaskToRunningMap (addTask (init 0) (mkNodeParam "e1" "n0"))
                         (mkTaskParam "e1" "n1" "t1")) ++
               [EvInstanceInterrupted "e1" INTERRUPTED "n1" "t1" "form42"] /\
   calls s' = calls (pushTaskToRunningMap (addTask (init 0) (mkNodeParam "e1" "n0"))
                       (mkTaskParam "e1" "n1" "t1"))).
Proof.
  split; [reflexivity|]. split; [discriminate|].
  apply (C4_interrupted_execute_handling _ (mkTaskParam "e1" "n1" "t1")
           (mkActionResult INTERRUPTED "task" "{}" [mkEdge "n2"] "form42")).
  - reflexivity.
  - discriminate.
Defined.

(** The state [next] hands to its final [run]. *)
Definition next_before_run (s : Scheduler) (data : TaskResult) : Scheduler :=
  removeTaskFromRunningMap
    (saveTaskResult (enqueue_outgoing s (tr_executionId data) (tr_outgoing data)) data)
    (tr_executionId data) (tr_taskId data).

(** C5 (counterexample). A task resumed with the empty task id and then
    settled through [next] keeps its running entry: the guard
    [if (!taskId) return] in [removeTaskFromRunningMap] skips it, and the
    final [run] then finds a non-empty running map and emits nothing. *)
Lemma C5_empty_taskId_entry_kept :
  let s := next (resume (init 0) (mkResumeParam "e1" "n1" "" "{}") None)
             (mkTaskResult "e1" "n1" "" "task" "{}" [] None) "t2" in
  running_entry s "e1" "" = Some (mkTaskParam "e1" "n1" "") /\ events s = [].
Proof. split; reflexivity. Qed.

(** C5 (amended). On every call, [next] enqueues one ready node per
    outgoing entry, in order, with the same executionId; persists exactly one
    record; leaves events and node calls alone; and then re-invokes [run]
    with the settled nodeId and taskId.  It removes the settled task's
    running entry when its task id is non-empty; with an empty task id the
    running entries are left as they were. *)
Theorem C5_next_continuation (s : Scheduler) (data : TaskResult) (id : string) :
  let e := tr_executionId data in
  let s3 := next_before_run s data in
  next s data id = run s3 (mkRunParams e (Some (tr_nodeId data)) (Some (tr_taskId data))) id /\
  queue_of s3 e = queue_of s e ++ map (fun item => mkNodeParam e (target item)) (tr_outgoing data) /\
  records s3 = records s ++ [mkRecorderData e (tr_taskId data) (tr_nodeId data)
                               (tr_nodeType data) (now s) (tr_properties data) None] /\
  (tr_taskId data <> "" -> running_entry s3 e (tr_taskId data) = None) /\
  (tr_taskId data = "" -> forall e' t', running_entry s3 e' t' = running_entry s e' t') /\
  events s3 = events s /\
  calls s3 = calls s.
Proof.
  intros e s3. subst e s3. unfold next_before_run.
  set (s1 := enqueue_outgoing s (tr_executionId data) (tr_outgoing data)).
  destruct (enqueue_outgoing_logs s (tr_executionId data) (tr_outgoing data))
    as (He1 & Hr1 & Hc1 & Hn1 & Ht1). fold s1 in He1, Hr1, Hc1, Hn1, Ht1.
  destruct (removeTask_logs (saveTaskResult s1 data) (tr_executionId data) (tr_taskId data))
    as (Hq & He & Hr & Hc).
  split; [reflexivity|].
  split.
  { unfold queue_of at 1. rewrite Hq. unfold saveTaskResult, push_record; simpl.
    rewrite <- enqueue_outgoing_queue_of. reflexivity. }
  split.
  { rewrite Hr. unfold saveTaskResult, push_record; simpl. rewrite Hr1, Hn1. reflexivity. }
  split; [apply removeTask_entry|].
  split.
  { intros Ht e' t'. unfold removeTaskFromRunningMap, truthy. rewrite Ht. simpl.
    unfold running_entry. simpl. rewrite Ht1. reflexivity. }
  split; [rewrite He; exact He1|]. rewrite Hc; exact Hc1.
Qed.

(** C6 (counterexample). [addTask] is not idempotent: a second identical
    call pushes the node a second time. *)
Lemma C6_addTask_not_idempotent :
  addTask (addTask (init 0) ex_node) ex_node <> addTask (init 0) ex_node.
Proof.
  intros H. apply (f_equal (fun s => queue_of s "e1")) in H.
  vm_compute in H. discriminate.
Qed.

(** C6 (amended). [addTask] appends the node at the tail of its
    instance's queue (created when absent), leaving every other queue and
    the running map, events, records and node calls unchanged; calling it
    twice appends the node twice. *)
Theorem C6_addTask_appends (s : Scheduler) (np : NodeParam) :
  let e := np_executionId np in
  nodeQueueMap (addTask s np) = <[e := queue_of s e ++ [np]]> (nodeQueueMap s) /\
  taskRunningMap (addTask s np) = taskRunningMap s /\
  events (addTask s np) = events s /\
  records (addTask s np) = records s /\
  calls (addTask s np) = calls s /\
  queue_of (addTask (addTask s np) np) e = queue_of s e ++ [np; np].
Proof.
  intros e. repeat split.
  rewrite !addTask_queue_of. subst e. rewrite String.eqb_refl, <- app_assoc.
  reflexivity.
Qed.

(** C7. [resume] never looks at the value returned by [model.resume]: the
    resulting state is the same for every returned value, in particular an
    INTERRUPTED one, and it emits no event and persists no record. *)
Theorem C7_resume_ignores_result (s : Scheduler) (rp : ResumeParam)
    (result : option ActionResult) :
  resume s rp result = resume s rp None /\
  events (resume s rp result) = events s /\
  records (resume s rp result) = records s.
Proof. repeat split. Qed.

(** C8 (code_bug). [clear] removes the instance index before reading it
    back, so the read gives [null] and no task record is removed: after
    recording one task and clearing, [getTask] still finds the record. *)
Lemma C8_clear_keeps_task_records :
  match Recorder.addTask ∅ ex_record with
  | Some st =>
      match Recorder.clear st with
      | Some st' =>
          Recorder.getItem st' Recorder.LOGICFLOW_ENGINE_INSTANCES = None /\
          Recorder.getItem st' "e1" = None /\
          Recorder.getTask st' "t1" = Some (Recorder.SRecord ex_record)
      | None => False
      end
  | None => False
  end.
Proof. vm_compute. repeat split. Qed.

(** C9 (code_bug). After the one-node lifecycle of [ex_lifecycle] has
    emitted instance-complete, the running map has evicted the instance
    (in [hasRunningTask]) but the queue map still holds an empty queue for
    it: [getNextNode] never evicts. *)
Lemma C9_queue_map_keeps_ended_instance :
  events ex_lifecycle = [EvInstanceComplete "e1" (Some "n1") (Some "t1") COMPLETED] /\
  taskRunningMap ex_lifecycle !! "e1" = None /\
  nodeQueueMap ex_lifecycle !! "e1" = Some [].
Proof. vm_compute. repeat split. Qed.

(** C10. For an instance with no queue entry and no running task, one
    [run] emits instance-complete with status COMPLETED and the nodeId and
    taskId given to it (absent when omitted), and starts no node. *)
Theorem C10_run_unknown_instance_completes (s : Scheduler) (rp : RunParams)
    (id : string) :
  nodeQueueMap s !! rp_executionId rp = None ->
  running_empty s (rp_executionId rp) = true ->
  events (run s rp id) =
    events s ++ [EvInstanceComplete (rp_executionId rp) (rp_nodeId rp) (rp_taskId rp) COMPLETED] /\
  calls (run s rp id) = calls s.
Proof.
  intros Hq Hr.
  assert (Hqe : queue_empty s (rp_executionId rp) = true)
    by (unfold queue_empty; rewrite Hq; reflexivity).
  split.
  - rewrite run_events, Hqe, Hr. reflexivity.
  - apply run_calls_empty; exact Hqe.
Qed.

Lemma C10_run_unknown_instance_completes_witness :
  nodeQueueMap (init 0) !! "e9" = None /\
  running_empty (init 0) "e9" = true /\
  events (run (init 0) (mkRunParams "e9" None None) "t1") =
    [EvInstanceComplete "e9" None None COMPLETED].
Proof.
  split; [reflexivity|]. split; [reflexivity|].
  apply (C10_run_unknown_instance_completes (init 0) (mkRunParams "e9" None None) "t1");
    reflexivity.
Defined.

(** ** Further properties of the Recorder *)

Module RecorderProps.
Import Recorder.

(* Lemmas are stated on [gmap string SValue], the unfolded [Storage],
   so that stdpp's map lemmas apply. *)

(** The index ids stored under a key, [[]] when absent or not an index. *)
Definition index_of (st : gmap string SValue) (k : string) : list string :=
  match st !! k with Some (SIds l) => l | _ => [] end.

Lemma clear_instance_eq (st : gmap string SValue) (e : string) :
  clear_instance st e = Some (delete e st).
Proof.
  unfold clear_instance, removeItem, getItem, Storage. rewrite lookup_delete_eq. reflexivity.
Qed.

Lemma clear_instances_eq (st : gmap string SValue) (ids : list string) :
  clear_instances st ids = Some (foldl (fun m k => delete k m) st ids).
Proof.
  revert st; induction ids as [|e ids IH]; intros st; [reflexivity|].
  simpl. rewrite clear_instance_eq. apply IH.
Qed.

Lemma foldl_delete_lookup (st : gmap string SValue) (ids : list string) (k : string) :
  foldl (fun m k => delete k m) st ids !! k =
  if decide (k ∈ ids) then None else st !! k.
Proof.
  revert st; induction ids as [|e ids IH]; intros st; simpl.
  - destruct (decide (k ∈ [])) as [Hin|]; [inversion Hin|reflexivity].
  - rewrite IH. destruct (decide (k ∈ ids)) as [Hin|Hnin].
    + rewrite decide_True by (apply elem_of_cons; auto). reflexivity.
    + destruct (decide (k = e)) as [->|Hne].
      * rewrite decide_True by (apply elem_of_cons; auto). apply lookup_delete_eq.
      * rewrite decide_False by (rewrite elem_of_cons; intros [?|?]; contradiction).
        apply lookup_delete_ne; congruence.
Qed.

(** X1. [Recorder.addTask] followed by [getTask] gives back the record,
    and a successful [addTask] writes only the keys taskId, executionId and
    the instance list. *)
Theorem X1_addTask_getTask (st st' : gmap string SValue) (task : RecorderData) :
  Recorder.addTask st task = Some st' ->
  getTask st' (rd_taskId task) = Some (SRecord task) /\
  (forall k, k <> rd_taskId task -> k <> rd_executionId task ->
     k <> LOGICFLOW_ENGINE_INSTANCES -> st' !! k = st !! k).
Proof.
  unfold Recorder.addTask, getTask, getItem, setItem, Storage.
  destruct (st !! rd_executionId task) as [[l|r]|] eqn:He.
  - intros [= <-]. split; [apply lookup_insert_eq|].
    intros k H1 H2 _. rewrite !lookup_insert_ne by congruence. reflexivity.
  - discriminate.
  - destruct (ids_or_empty (st !! LOGICFLOW_ENGINE_INSTANCES)); [|discriminate].
    intros [= <-]. split; [apply lookup_insert_eq|].
    intros k H1 H2 H3. rewrite !lookup_insert_ne by congruence. reflexivity.
Qed.

Lemma X1_addTask_getTask_witness :
  Recorder.addTask ∅ ex_record =
    Some (<["t1" := SRecord ex_record]> (<["e1" := SIds ["t1"]]>
            (<[LOGICFLOW_ENGINE_INSTANCES := SIds ["e1"]]> ∅))) /\
  getTask (<["t1" := SRecord ex_record]> (<["e1" := SIds ["t1"]]>
            (<[LOGICFLOW_ENGINE_INSTANCES := SIds ["e1"]]> ∅))) "t1" = Some (SRecord ex_record).
Proof.
  split; [reflexivity|].
  apply (X1_addTask_getTask ∅ _ ex_record). reflexivity.
Defined.

(** X4. [Recorder.addTask] throws exactly when the executionId key holds a
    task record instead of an index, or when it holds nothing and the
    instance-list key holds a task record. *)
Theorem X4_addTask_throws_iff (st : gmap string SValue) (task : RecorderData) :
  Recorder.addTask st task = None <->
  (exists r, st !! rd_executionId task = Some (SRecord r)) \/
  (st !! rd_executionId task = None /\
   exists r, st !! LOGICFLOW_ENGINE_INSTANCES = Some (SRecord r)).
Proof.
  unfold Recorder.addTask, getItem, setItem, Storage.
  destruct (st !! rd_executionId task) as [[l|r]|].
  - split; [discriminate|]. intros [[r Hr]|[Hr _]]; discriminate.
  - split; [eauto|reflexivity].
  - unfold ids_or_empty.
    destruct (st !! LOGICFLOW_ENGINE_INSTANCES) as [[l|r]|].
    + split; [discriminate|]. intros [[r Hr]|[_ [r Hr]]]; discriminate.
    + split; [eauto|reflexivity].
    + split; [discriminate|]. intros [[r Hr]|[_ [r Hr]]]; discriminate.
Qed.

(** X5. [Recorder.clear] throws exactly when the instance-list key holds a
    task record; otherwise it deletes the instance-list key and the index key
    of every listed execution, and every other key (the task records among
    them) keeps its value. *)
Theorem X5_clear_effect (st : gmap string SValue) :
  (clear st = None <-> exists r, st !! LOGICFLOW_ENGINE_INSTANCES = Some (SRecord r)) /\
  (forall st', clear st = Some st' ->
   forall k, st' !! k =
     if decide (k = LOGICFLOW_ENGINE_INSTANCES \/ k ∈ index_of st LOGICFLOW_ENGINE_INSTANCES)
     then None else st !! k).
Proof.
  unfold clear, getItem, index_of, removeItem, Storage.
  destruct (st !! LOGICFLOW_ENGINE_INSTANCES) as [[l|r]|] eqn:Hi; simpl;
    try rewrite clear_instances_eq.
  - split; [split; [discriminate|intros [r Hr]; discriminate]|].
    intros st' [= <-] k.
    destruct (decide (k = LOGICFLOW_ENGINE_INSTANCES)) as [->|Hk].
    + rewrite lookup_delete_eq, decide_True by auto. reflexivity.
    + rewrite lookup_delete_ne by congruence. rewrite foldl_delete_lookup.
      destruct (decide (k ∈ l)) as [Hin|Hnin].
      * rewrite decide_True by auto. reflexivity.
      * rewrite decide_False by (intros [?|?]; contradiction). reflexivity.
  - split; [split; [eauto|reflexivity]|]. discriminate.
  - split; [split; [discriminate|intros [r Hr]; discriminate]|].
    intros st' [= <-] k. simpl.
    destruct (decide (k = LOGICFLOW_ENGINE_INSTANCES)) as [->|Hk].
    + rewrite lookup_delete_eq, decide_True by auto. reflexivity.
    + rewrite lookup_delete_ne by congruence.
      rewrite decide_False by (intros [?|Hin]; [contradiction|inversion Hin]).
      reflexivity.
Qed.

End RecorderProps.

(** ** Further properties of the Scheduler *)

Module SchedulerProps.

(** One call of an entry point of the scheduler, or the settling of a node
    call it started. *)
Inductive Step : Scheduler -> Scheduler -> Prop :=
| step_addTask s np : Step s (addTask s np)
| step_run s rp id : Step s (run s rp id)
| step_exec_settle s tp r :
    In (CallExecute tp) (calls s) -> Step s (exec_settle s tp r)
| step_resume s rp r : Step s (resume s rp r)
| step_next s d id : Step s (next s d id).

Inductive reachable : Scheduler -> Prop :=
| reach_init t : reachable (init t)
| reach_step s s' : reachable s -> Step s s' -> reachable s'.

(** Every queued node belongs to the instance whose queue holds it. *)
Definition queue_ok (s : Scheduler) : Prop :=
  forall e np, In np (queue_of s e) -> np_executionId np = e.

(** Every running entry under [(e, t)] is a task of instance [e] with id [t]. *)
Definition running_ok (s : Scheduler) : Prop :=
  forall e t tp, running_entry s e t = Some tp -> tp_executionId tp = e /\ tp_taskId tp = t.

(** The task a node call runs. *)
Definition call_task (c : NodeCall) : TaskParam :=
  match c with
  | CallExecute tp => tp
  | CallResume rp => mkTaskParam (rs_executionId rp) (rs_nodeId rp) (rs_taskId rp)
  end.

(** Every running entry is a task whose node call has been started. *)
Definition running_started (s : Scheduler) : Prop :=
  forall e t tp, running_entry s e t = Some tp -> In tp (map call_task (calls s)).

(** *** Equations of the operations on the two maps *)

Lemma running_entry_push (s : Scheduler) (tp : TaskParam) (e t : string) :
  running_entry (pushTaskToRunningMap s tp) e t =
  if decide (e = tp_executionId tp /\ t = tp_taskId tp) then Some tp
  else running_entry s e t.
Proof.
  unfold running_entry, pushTaskToRunningMap, set_taskRunningMap; simpl.
  destruct (decide (e = tp_executionId tp)) as [->|He].
  - rewrite lookup_insert_eq; simpl.
    destruct (decide (t = tp_taskId tp)) as [->|Ht].
    + rewrite lookup_insert_eq, decide_True by auto. reflexivity.
    + rewrite lookup_insert_ne by congruence.
      rewrite decide_False by (intros [_ ?]; contradiction).
      destruct (taskRunningMap s !! tp_executionId tp); simpl;
        [reflexivity|apply lookup_empty].
  - rewrite lookup_insert_ne by congruence.
    rewrite decide_False by (intros [? _]; contradiction). reflexivity.
Qed.

Lemma running_entry_remove (s : Scheduler) (e0 t0 e t : string) :
  running_entry (removeTaskFromRunningMap s e0 t0) e t =
  if decide (t0 <> "" /\ e = e0 /\ t = t0) then None else running_entry s e t.
Proof.
  unfold removeTaskFromRunningMap, truthy, running_entry.
  destruct (String.eqb_spec t0 "") as [->|Ht0]; simpl.
  - destruct (decide ("" <> "" /\ e = e0 /\ t = "")) as [[? _]|]; [congruence|reflexivity].
  - destruct (taskRunningMap s !! e0) as [m|] eqn:Hm.
    + unfold set_taskRunningMap; simpl.
      destruct (decide (e = e0)) as [->|He].
      * rewrite lookup_insert_eq, Hm; simpl.
        destruct (decide (t = t0)) as [->|Ht].
        -- rewrite lookup_delete_eq, decide_True by auto. reflexivity.
        -- rewrite lookup_delete_ne by congruence.
           rewrite decide_False by (intros (_ & _ & ?); contradiction). reflexivity.
      * rewrite lookup_insert_ne by congruence.
        rewrite decide_False by (intros (_ & ? & _); contradiction). reflexivity.
    + destruct (decide (t0 <> "" /\ e = e0 /\ t = t0)) as [(_ & -> & _)|_];
        [rewrite Hm; reflexivity|reflexivity].
Qed.

Lemma running_entry_hasRunningTask (s : Scheduler) (e0 e t : string) :
  running_entry (hasRunningTask s e0).2 e t = running_entry s e t.
Proof.
  unfold hasRunningTask, running_entry.
  destruct (taskRunningMap s !! e0) as [m|] eqn:Hm; [|reflexivity].
  destruct (Nat.eqb_spec (size m) 0) as [Hs|]; [|reflexivity].
  apply map_size_empty_inv in Hs. subst m.
  unfold set_taskRunningMap; simpl.
  destruct (decide (e = e0)) as [->|He].
  - rewrite lookup_delete_eq, Hm; simpl. rewrite lookup_empty. reflexivity.
  - rewrite lookup_delete_ne by congruence. reflexivity.
Qed.

(** [run] pops the head of a non-empty queue, registers and starts it. *)
Lemma run_launch (s : Scheduler) (rp : RunParams) (id : string)
    (n : NodeParam) (q : list NodeParam) :
  nodeQueueMap s !! rp_executionId rp = Some (n :: q) ->
  run s rp id =
  exec_start
    (pushTaskToRunningMap
       (set_nodeQueueMap s (<[rp_executionId rp := q]> (nodeQueueMap s)))
       (mkTaskParam (np_executionId n) (np_nodeId n) id))
    (mkTaskParam (np_executionId n) (np_nodeId n) id).
Proof. intros H. unfold run, getNextNode. rewrite H. reflexivity. Qed.

(** [run] on an empty or absent queue checks the running map and, when it
    is empty, emits instance-complete. *)
Lemma run_settled (s : Scheduler) (rp : RunParams) (id : string) :
  queue_empty s (rp_executionId rp) = true ->
  run s rp id =
  let '(b, s2) := hasRunningTask s (rp_executionId rp) in
  if b then s2
  else emit s2 (EvInstanceComplete (rp_executionId rp) (rp_nodeId rp)
                  (rp_taskId rp) COMPLETED).
Proof.
  unfold queue_empty, run, getNextNode.
  destruct (nodeQueueMap s !! rp_executionId rp) as [[|n q]|]; try discriminate;
    reflexivity.
Qed.

Definition Inv (s : Scheduler) : Prop :=
  queue_ok s /\ running_ok s /\ running_started s.

Lemma run_settled_if (s : Scheduler) (rp : RunParams) (id : string) :
  queue_empty s (rp_executionId rp) = true ->
  run s rp id =
  if (hasRunningTask s (rp_executionId rp)).1 then (hasRunningTask s (rp_executionId rp)).2
  else emit (hasRunningTask s (rp_executionId rp)).2
         (EvInstanceComplete (rp_executionId rp) (rp_nodeId rp) (rp_taskId rp) COMPLETED).
Proof.
  intros H. rewrite run_settled by exact H.
  destruct (hasRunningTask s (rp_executionId rp)); reflexivity.
Qed.

Lemma hasRunningTask_fields (s : Scheduler) (e : string) :
  nodeQueueMap (hasRunningTask s e).2 = nodeQueueMap s /\
  events (hasRunningTask s e).2 = events s /\
  records (hasRunningTask s e).2 = records s /\
  calls (hasRunningTask s e).2 = calls s.
Proof.
  unfold hasRunningTask. destruct (taskRunningMap s !! e) as [m|]; [|done].
  destruct (Nat.eqb (size m) 0); done.
Qed.

Lemma Inv_ext (s s' : Scheduler) :
  nodeQueueMap s' = nodeQueueMap s ->
  (forall e t, running_entry s' e t = running_entry s e t) ->
  calls s' = calls s ->
  Inv s -> Inv s'.
Proof.
  intros Hq Hr Hc (HQ & HR & HS). split; [|split].
  - intros e np Hin. apply HQ. unfold queue_of in *. rewrite Hq in Hin. exact Hin.
  - intros e t tp H. rewrite Hr in H. auto.
  - intros e t tp H. rewrite Hc. rewrite Hr in H. eauto.
Qed.

Lemma Inv_addTask (s : Scheduler) (np : NodeParam) : Inv s -> Inv (addTask s np).
Proof.
  intros (HQ & HR & HS). split; [|split; [exact HR|exact HS]].
  intros e np' Hin. rewrite addTask_queue_of in Hin.
  destruct (String.eqb_spec (np_executionId np) e) as [<-|].
  - apply in_app_or in Hin as [Hin|[<-|[]]]; [apply HQ; exact Hin|reflexivity].
  - apply HQ; exact Hin.
Qed.

Lemma Inv_enqueue (s : Scheduler) (e : string) (out : list Edge) :
  Inv s -> Inv (enqueue_outgoing s e out).
Proof.
  revert s; induction out as [|x out IH]; intros s H; [exact H|].
  unfold enqueue_outgoing in *; simpl. apply IH, Inv_addTask, H.
Qed.

Lemma Inv_remove (s : Scheduler) (e t : string) :
  Inv s -> Inv (removeTaskFromRunningMap s e t).
Proof.
  intros (HQ & HR & HS).
  destruct (removeTask_logs s e t) as (Hq & _ & _ & Hc).
  split; [|split].
  - intros e' np Hin. apply HQ. unfold queue_of in *. rewrite Hq in Hin. exact Hin.
  - intros e' t' tp H. rewrite running_entry_remove in H.
    destruct (decide _); [discriminate|]. auto.
  - intros e' t' tp H. rewrite Hc. rewrite running_entry_remove in H.
    destruct (decide _); [discriminate|]. eauto.
Qed.

Lemma Inv_hasRunningTask (s : Scheduler) (e : string) :
  Inv s -> Inv (hasRunningTask s e).2.
Proof.
  destruct (hasRunningTask_fields s e) as (Hq & _ & _ & Hc).
  apply Inv_ext; [exact Hq| |exact Hc].
  intros; apply running_entry_hasRunningTask.
Qed.

Lemma running_entry_start_call (s : Scheduler) (c : NodeCall) (e t : string) :
  running_entry (start_call s c) e t = running_entry s e t.
Proof. reflexivity. Qed.

(** Registering a task and starting its node call. *)
Lemma Inv_push_start (s : Scheduler) (tp : TaskParam) (c : NodeCall) :
  call_task c = tp -> Inv s -> Inv (start_call (pushTaskToRunningMap s tp) c).
Proof.
  intros Hc (HQ & HR & HS). split; [|split].
  - exact HQ.
  - intros e t tp' H. rewrite running_entry_start_call, running_entry_push in H.
    destruct (decide _) as [[-> ->]|]; [injection H as <-; auto|auto].
  - intros e t tp' H. rewrite running_entry_start_call, running_entry_push in H. simpl. rewrite map_app, in_app_iff.
    destruct (decide _); [injection H as <-; right; simpl; left; exact Hc|].
    left. eauto.
Qed.

Lemma Inv_run (s : Scheduler) (rp : RunParams) (id : string) :
  Inv s -> Inv (run s rp id).
Proof.
  intros H.
  destruct (nodeQueueMap s !! rp_executionId rp) as [[|n q]|] eqn:Hl.
  2: { rewrite (run_launch s rp id n q Hl). unfold exec_start.
       apply Inv_push_start; [reflexivity|].
       destruct H as (HQ & HR & HS). split; [|split; [exact HR|exact HS]].
       intros e np Hin. unfold queue_of, set_nodeQueueMap in Hin; simpl in Hin.
       destruct (decide (e = rp_executionId rp)) as [->|Hne].
       - rewrite lookup_insert_eq in Hin. apply HQ. unfold queue_of. rewrite Hl.
         right; exact Hin.
       - rewrite lookup_insert_ne in Hin by congruence. apply HQ. exact Hin. }
  all: rewrite run_settled_if by (unfold queue_empty; rewrite Hl; reflexivity);
    destruct (hasRunningTask s (rp_executionId rp)).1;
    [apply Inv_hasRunningTask; exact H|];
    apply (Inv_ext (hasRunningTask s (rp_executionId rp)).2); try reflexivity;
    apply Inv_hasRunningTask; exact H.
Qed.

Lemma Inv_step (s s' : Scheduler) : Step s s' -> Inv s -> Inv s'.
Proof.
  intros Hs H. destruct Hs as [s np|s rp id|s tp r _|s rp r|s d id].
  - apply Inv_addTask, H.
  - apply Inv_run, H.
  - unfold exec_settle. destruct r as [r|]; [|exact H].
    destruct (FlowStatus_eqb (ar_status r) INTERRUPTED); [|exact H].
    apply Inv_remove. revert H. apply Inv_ext; reflexivity.
  - unfold resume, resume_settle, resume_start. apply Inv_push_start; [reflexivity|exact H].
  - unfold next. apply Inv_run, Inv_remove.
    apply (Inv_ext (enqueue_outgoing s (tr_executionId d) (tr_outgoing d)));
      try reflexivity.
    apply Inv_enqueue, H.
Qed.

Lemma Inv_init (t : nat) : Inv (init t).
Proof.
  split; [|split].
  - intros e np Hin. unfold queue_of in Hin. simpl in Hin.
    rewrite lookup_empty in Hin. destruct Hin.
  - intros e t' tp H. unfold running_entry in H; simpl in H.
    rewrite lookup_empty in H. discriminate.
  - intros e t' tp H. unfold running_entry in H; simpl in H.
    rewrite lookup_empty in H. discriminate.
Qed.

(** X6. In every reachable scheduler state, each queued node belongs to
    the instance whose queue holds it, each running entry under
    [(executionId, taskId)] carries that executionId and taskId (so a task
    id names at most one running entry of an instance), and each running
    entry is a task whose node call ([execute] or [resume]) was started. *)
Theorem X6_reachable_invariants (s : Scheduler) :
  reachable s -> queue_ok s /\ running_ok s /\ running_started s.
Proof.
  induction 1 as [t|s s' _ IH Hs]; [apply Inv_init|].
  exact (Inv_step s s' Hs IH).
Qed.

Lemma X6_reachable_invariants_witness :
  reachable (run (addTask (init 0) ex_node) (mkRunParams "e1" None None) "t1") /\
  queue_ok (run (addTask (init 0) ex_node) (mkRunParams "e1" None None) "t1") /\
  running_ok (run (addTask (init 0) ex_node) (mkRunParams "e1" None None) "t1") /\
  running_started (run (addTask (init 0) ex_node) (mkRunParams "e1" None None) "t1").
Proof.
  assert (Hr : reachable (run (addTask (init 0) ex_node) (mkRunParams "e1" None None) "t1")).
  { eapply reach_step; [eapply reach_step; [apply (reach_init 0)|apply step_addTask]|].
    apply step_run. }
  split; [exact Hr|]. apply X6_reachable_invariants. exact Hr.
Defined.

(** *** Helpers on the settled state of an instance *)

Lemma running_empty_entry (s : Scheduler) (e t : string) :
  running_empty s e = true -> running_entry s e t = None.
Proof.
  unfold running_empty, running_entry.
  destruct (taskRunningMap s !! e) as [m|]; [|reflexivity]. simpl.
  intros Hs. apply Nat.eqb_eq, map_size_empty_inv in Hs. subst m.
  apply lookup_empty.
Qed.

Lemma hasRunningTask_settled (s : Scheduler) (e : string) :
  running_empty s e = true ->
  (hasRunningTask s e).1 = false /\ taskRunningMap (hasRunningTask s e).2 !! e = None.
Proof.
  unfold running_empty, hasRunningTask.
  destruct (taskRunningMap s !! e) as [m|] eqn:Hm; [|auto].
  intros ->. simpl. split; [reflexivity|]. apply lookup_delete_eq.
Qed.

(** Removing the only running task of an instance leaves its running map
    empty. *)
Lemma running_empty_remove_last (s : Scheduler) (e t : string) :
  t <> "" ->
  (forall t', running_entry s e t' <> None -> t' = t) ->
  running_empty (removeTaskFromRunningMap s e t) e = true.
Proof.
  intros Ht Honly. unfold removeTaskFromRunningMap, truthy.
  destruct (String.eqb_spec t "") as [|_]; [contradiction|]; simpl.
  unfold running_empty, running_entry in *.
  destruct (taskRunningMap s !! e) as [m|] eqn:Hm; [|rewrite Hm; reflexivity].
  simpl. rewrite lookup_insert_eq.
  assert (Hd : delete t m = ∅).
  { apply map_empty. intros i. destruct (decide (i = t)) as [->|Hi].
    - apply lookup_delete_eq.
    - rewrite lookup_delete_ne by congruence.
      destruct (m !! i) eqn:Hmi; [|reflexivity].
      exfalso. apply Hi, Honly. simpl. rewrite Hmi. discriminate. }
  rewrite Hd, map_size_empty. reflexivity.
Qed.

Lemma queue_empty_nodeQueueMap (s s' : Scheduler) (e : string) :
  nodeQueueMap s' = nodeQueueMap s -> queue_empty s' e = queue_empty s e.
Proof. intros H. unfold queue_empty. rewrite H. reflexivity. Qed.

(** The final [run] of [next] on a settled last branch emits completion. *)
Lemma next_last_branch (s : Scheduler) (d : TaskResult) (id : string) :
  tr_taskId d <> "" ->
  tr_outgoing d = [] ->
  queue_empty s (tr_executionId d) = true ->
  (forall t', running_entry s (tr_executionId d) t' <> None -> t' = tr_taskId d) ->
  events (next s d id) =
    events s ++ [EvInstanceComplete (tr_executionId d) (Some (tr_nodeId d))
                   (Some (tr_taskId d)) COMPLETED] /\
  calls (next s d id) = calls s.
Proof.
  intros Ht Hout Hq Honly.
  change (next s d id) with
    (run (next_before_run s d)
       (mkRunParams (tr_executionId d) (Some (tr_nodeId d)) (Some (tr_taskId d))) id).
  unfold next_before_run. rewrite Hout. simpl.
  destruct (removeTask_logs (saveTaskResult s d) (tr_executionId d) (tr_taskId d))
    as (HQ & HE & _ & HC).
  assert (Hq' : queue_empty (removeTaskFromRunningMap (saveTaskResult s d)
                  (tr_executionId d) (tr_taskId d)) (tr_executionId d) = true).
  { rewrite (queue_empty_nodeQueueMap s) by (rewrite HQ; reflexivity). exact Hq. }
  split.
  - rewrite run_events. simpl. rewrite Hq'.
    rewrite running_empty_remove_last by assumption. simpl. rewrite HE. reflexivity.
  - rewrite run_calls_empty by exact Hq'. rewrite HC. reflexivity.
Qed.

(** X7. [run] on an instance whose queue starts with node [n] removes [n]
    from the queue, registers the task [{executionId, nodeId, taskId}] with
    the freshly minted id in the running map, starts its execution and emits
    nothing. *)
Theorem X7_run_registers_launched_task (s : Scheduler) (rp : RunParams) (id : string)
    (n : NodeParam) (q : list NodeParam) :
  nodeQueueMap s !! rp_executionId rp = Some (n :: q) ->
  let tp := mkTaskParam (np_executionId n) (np_nodeId n) id in
  queue_of (run s rp id) (rp_executionId rp) = q /\
  running_entry (run s rp id) (np_executionId n) id = Some tp /\
  calls (run s rp id) = calls s ++ [CallExecute tp] /\
  events (run s rp id) = events s.
Proof.
  intros Hl tp. rewrite (run_launch s rp id n q Hl). fold tp.
  unfold exec_start. split; [|split; [|split]].
  - unfold queue_of; simpl. rewrite lookup_insert_eq. reflexivity.
  - rewrite running_entry_start_call, running_entry_push, decide_True by auto.
    reflexivity.
  - reflexivity.
  - reflexivity.
Qed.

Lemma X7_run_registers_launched_task_witness :
  nodeQueueMap (addTask (init 0) ex_node) !! "e1" = Some [ex_node] /\
  running_entry (run (addTask (init 0) ex_node) (mkRunParams "e1" None None) "t1") "e1" "t1" =
    Some (mkTaskParam "e1" "n1" "t1").
Proof.
  split; [reflexivity|].
  apply (X7_run_registers_launched_task (addTask (init 0) ex_node)
           (mkRunParams "e1" None None) "t1" ex_node []).
  reflexivity.
Defined.

(** X8. On an instance with an empty or absent queue and an empty or absent
    running map, [run] evicts the running map and emits instance-complete,
    and a second [run] emits instance-complete again: nothing in the
    scheduler prevents a repeated completion event. *)
Theorem X8_repeated_run_repeats_completion (s : Scheduler) (e : string)
    (nid tid nid' tid' : option string) (id id' : string) :
  queue_empty s e = true ->
  running_empty s e = true ->
  let s1 := run s (mkRunParams e nid tid) id in
  taskRunningMap s1 !! e = None /\
  events (run s1 (mkRunParams e nid' tid') id') =
    events s ++ [EvInstanceComplete e nid tid COMPLETED;
                 EvInstanceComplete e nid' tid' COMPLETED].
Proof.
  intros Hq Hr s1.
  destruct (hasRunningTask_settled s e Hr) as [Hb Hn].
  assert (Hs1 : s1 = emit (hasRunningTask s e).2 (EvInstanceComplete e nid tid COMPLETED)).
  { subst s1. rewrite run_settled_if by exact Hq. simpl. rewrite Hb. reflexivity. }
  destruct (hasRunningTask_fields s e) as (HQ & HE & _ & _).
  split; [rewrite Hs1; exact Hn|].
  rewrite run_events. simpl.
  assert (Hq1 : queue_empty s1 e = true).
  { rewrite (queue_empty_nodeQueueMap s s1); [exact Hq|]. rewrite Hs1; exact HQ. }
  assert (Hr1 : running_empty s1 e = true).
  { unfold running_empty. rewrite Hs1; simpl. rewrite Hn. reflexivity. }
  rewrite Hq1, Hr1. simpl. rewrite Hs1; simpl. rewrite HE, <- app_assoc. reflexivity.
Qed.

Lemma X8_repeated_run_repeats_completion_witness :
  queue_empty (init 0) "e1" = true /\ running_empty (init 0) "e1" = true /\
  events (run (run (init 0) (mkRunParams "e1" None None) "t1")
            (mkRunParams "e1" None None) "t2") =
    [EvInstanceComplete "e1" None None COMPLETED; EvInstanceComplete "e1" None None COMPLETED].
Proof.
  split; [reflexivity|]. split; [reflexivity|].
  apply (X8_repeated_run_repeats_completion (init 0) "e1" None None None None "t1" "t2");
    reflexivity.
Defined.

(** X9. When the last running task of an instance whose queue is empty
    settles through [next] with no outgoing edges, that [next] emits
    instance-complete carrying the settled nodeId and taskId, and starts no
    node. *)
Theorem X9_next_last_branch_completes (s : Scheduler) (d : TaskResult) (id : string) :
  tr_taskId d <> "" ->
  tr_outgoing d = [] ->
  queue_empty s (tr_executionId d) = true ->
  (forall t', running_entry s (tr_executionId d) t' <> None -> t' = tr_taskId d) ->
  events (next s d id) =
    events s ++ [EvInstanceComplete (tr_executionId d) (Some (tr_nodeId d))
                   (Some (tr_taskId d)) COMPLETED] /\
  calls (next s d id) = calls s.
Proof. apply next_last_branch. Qed.

Lemma X9_next_last_branch_completes_witness :
  let s := run (addTask (init 0) ex_node) (mkRunParams "e1" None None) "t1" in
  let d := mkTaskResult "e1" "n1" "t1" "task" "{}" [] None in
  tr_taskId d <> "" /\ tr_outgoing d = [] /\ queue_empty s "e1" = true /\
  (forall t', running_entry s "e1" t' <> None -> t' = "t1") /\
  events (next s d "t2") = [EvInstanceComplete "e1" (Some "n1") (Some "t1") COMPLETED].
Proof.
  intros s d.
  assert (Honly : forall t', running_entry s "e1" t' <> None -> t' = "t1").
  { intros t' H. unfold s in H.
    rewrite (run_launch (addTask (init 0) ex_node) (mkRunParams "e1" None None) "t1"
               ex_node [] eq_refl) in H. unfold exec_start in H.
    rewrite running_entry_start_call, running_entry_push in H.
    destruct (decide _) as [[_ ->]|_]; [reflexivity|].
    exfalso; apply H; reflexivity. }
  split; [discriminate|]. split; [reflexivity|]. split; [reflexivity|].
  split; [exact Honly|].
  apply (X9_next_last_branch_completes s d "t2"); [discriminate|reflexivity|reflexivity|exact Honly].
Defined.

(** X10. When [next] settles a task with outgoing edges [x :: xs] on an
    instance whose queue was empty, its final [run] starts the first target
    [x] under the freshly minted task id, and the remaining targets [xs] stay
    queued in order. *)
Theorem X10_next_launches_first_target (s : Scheduler) (d : TaskResult) (id : string)
    (x : Edge) (xs : list Edge) :
  tr_outgoing d = x :: xs ->
  queue_empty s (tr_executionId d) = true ->
  calls (next s d id) =
    calls s ++ [CallExecute (mkTaskParam (tr_executionId d) (target x) id)] /\
  queue_of (next s d id) (tr_executionId d) =
    map (fun item => mkNodeParam (tr_executionId d) (target item)) xs.
Proof.
  intros Hout Hq.
  set (e := tr_executionId d).
  set (s1 := enqueue_outgoing s e (tr_outgoing d)).
  destruct (enqueue_outgoing_logs s e (tr_outgoing d)) as (_ & _ & Hc1 & _ & _).
  fold s1 in Hc1.
  destruct (removeTask_logs (saveTaskResult s1 d) e (tr_taskId d)) as (HQ & _ & _ & HC).
  assert (Hs : queue_of s e = []).
  { unfold queue_empty, queue_of in *. fold e in Hq.
    destruct (nodeQueueMap s !! e) as [[|n q]|]; [reflexivity|discriminate|reflexivity]. }
  assert (Hl : nodeQueueMap (next_before_run s d) !! e =
               Some (mkNodeParam e (target x) ::
                     map (fun item => mkNodeParam e (target item)) xs)).
  { unfold next_before_run. fold e s1. rewrite HQ. simpl.
    pose proof (enqueue_outgoing_queue_of s e (tr_outgoing d)) as Hqo.
    fold s1 in Hqo. rewrite Hs, Hout in Hqo. simpl in Hqo.
    unfold queue_of in Hqo. destruct (nodeQueueMap s1 !! e); [|discriminate].
    rewrite Hqo. reflexivity. }
  change (next s d id) with
    (run (next_before_run s d) (mkRunParams e (Some (tr_nodeId d)) (Some (tr_taskId d))) id).
  rewrite (run_launch (next_before_run s d)
             (mkRunParams e (Some (tr_nodeId d)) (Some (tr_taskId d))) id _ _ Hl).
  unfold exec_start. simpl. split.
  - unfold next_before_run. fold e s1. rewrite HC. simpl. rewrite Hc1. reflexivity.
  - unfold queue_of. simpl. rewrite lookup_insert_eq. reflexivity.
Qed.

Lemma X10_next_launches_first_target_witness :
  let s := run (addTask (init 0) ex_node) (mkRunParams "e1" None None) "t1" in
  let d := mkTaskResult "e1" "n1" "t1" "task" "{}" [mkEdge "B"; mkEdge "C"] None in
  tr_outgoing d = mkEdge "B" :: [mkEdge "C"] /\ queue_empty s "e1" = true /\
  calls (next s d "t2") = calls s ++ [CallExecute (mkTaskParam "e1" "B" "t2")].
Proof.
  intros s d. split; [reflexivity|]. split; [reflexivity|].
  apply (X10_next_launches_first_target s d "t2" (mkEdge "B") [mkEdge "C"]);
    reflexivity.
Defined.

(** X11. In a state where every queued node belongs to its own instance,
    [run] on one instance leaves the queue and the running entries of every
    other instance unchanged. *)
Theorem X11_run_isolated (s : Scheduler) (rp : RunParams) (id e' : string) :
  queue_ok s ->
  e' <> rp_executionId rp ->
  queue_of (run s rp id) e' = queue_of s e' /\
  (forall t, running_entry (run s rp id) e' t = running_entry s e' t).
Proof.
  intros HQ Hne.
  destruct (nodeQueueMap s !! rp_executionId rp) as [[|n q]|] eqn:Hl.
  2: { assert (Hn : np_executionId n = rp_executionId rp).
       { apply HQ. unfold queue_of. rewrite Hl. left; reflexivity. }
       rewrite (run_launch s rp id n q Hl). unfold exec_start. split.
       - unfold queue_of; simpl. rewrite lookup_insert_ne by congruence. reflexivity.
       - intros t. rewrite running_entry_start_call, running_entry_push.
         rewrite decide_False by (simpl; intros [? _]; congruence).
         reflexivity. }
  all: rewrite run_settled_if by (unfold queue_empty; rewrite Hl; reflexivity);
    destruct (hasRunningTask_fields s (rp_executionId rp)) as (HQm & _ & _ & _);
    destruct (hasRunningTask s (rp_executionId rp)).1; split;
    try (unfold queue_of; simpl; rewrite HQm; reflexivity);
    intros t; apply running_entry_hasRunningTask.
Qed.

Lemma X11_run_isolated_witness :
  queue_ok (addTask (addTask (init 0) ex_node) (mkNodeParam "e2" "m1")) /\
  "e2" <> "e1" /\
  queue_of (run (addTask (addTask (init 0) ex_node) (mkNodeParam "e2" "m1"))
              (mkRunParams "e1" None None) "t1") "e2" =
    queue_of (addTask (addTask (init 0) ex_node) (mkNodeParam "e2" "m1")) "e2".
Proof.
  assert (H : queue_ok (addTask (addTask (init 0) ex_node) (mkNodeParam "e2" "m1"))).
  { apply Inv_addTask, Inv_addTask, Inv_init. }
  split; [exact H|]. split; [discriminate|].
  apply (X11_run_isolated _ (mkRunParams "e1" None None) "t1" "e2" H). discriminate.
Defined.

(** X12. Resuming a task of an idle instance (empty queue, empty running
    map) with a non-empty task id registers that task in the running map and
    starts the node's [resume]; when the node then settles it through [next]
    with no outgoing edges, [next] emits instance-complete for it. *)
Theorem X12_resume_then_next_completes (s : Scheduler) (rp : ResumeParam)
    (r : option ActionResult) (nodeType : string) (props : Payload)
    (extra : option ExtraInfo) (id : string) :
  rs_taskId rp <> "" ->
  queue_empty s (rs_executionId rp) = true ->
  running_empty s (rs_executionId rp) = true ->
  let s1 := resume s rp r in
  running_entry s1 (rs_executionId rp) (rs_taskId rp) =
    Some (mkTaskParam (rs_executionId rp) (rs_nodeId rp) (rs_taskId rp)) /\
  calls s1 = calls s ++ [CallResume rp] /\
  events (next s1 (mkTaskResult (rs_executionId rp) (rs_nodeId rp) (rs_taskId rp)
                     nodeType props [] extra) id) =
    events s ++ [EvInstanceComplete (rs_executionId rp) (Some (rs_nodeId rp))
                   (Some (rs_taskId rp)) COMPLETED].
Proof.
  intros Ht Hq Hr s1.
  assert (Hentry : forall e t, running_entry s1 e t =
            running_entry (pushTaskToRunningMap s
              (mkTaskParam (rs_executionId rp) (rs_nodeId rp) (rs_taskId rp))) e t)
    by reflexivity.
  split; [|split].
  - rewrite Hentry, running_entry_push, decide_True by auto. reflexivity.
  - reflexivity.
  - edestruct (next_last_branch s1
                 (mkTaskResult (rs_executionId rp) (rs_nodeId rp) (rs_taskId rp)
                    nodeType props [] extra) id) as [He _];
      simpl; [exact Ht|reflexivity| | |exact He].
    + rewrite (queue_empty_nodeQueueMap s s1) by reflexivity. exact Hq.
    + intros t' H. rewrite Hentry, running_entry_push in H.
      destruct (decide _) as [[_ ->]|_]; [reflexivity|].
      rewrite running_empty_entry in H by exact Hr. congruence.
Qed.

Lemma X12_resume_then_next_completes_witness :
  rs_taskId (mkResumeParam "e1" "n1" "t1" "{}") <> "" /\
  queue_empty (init 0) "e1" = true /\ running_empty (init 0) "e1" = true /\
  events (next (resume (init 0) (mkResumeParam "e1" "n1" "t1" "{}") None)
            (mkTaskResult "e1" "n1" "t1" "task" "{}" [] None) "t2") =
    [EvInstanceComplete "e1" (Some "n1") (Some "t1") COMPLETED].
Proof.
  split; [discriminate|]. split; [reflexivity|]. split; [reflexivity|].
  apply (X12_resume_then_next_completes (init 0) (mkResumeParam "e1" "n1" "t1" "{}")
           None "task" "{}" None "t2"); [discriminate|reflexivity|reflexivity].
Defined.

(** X13. An interrupted branch does not hold its instance open: when the
    only running task of an instance with an empty queue is interrupted, the
    next [run] of that instance emits instance-complete right after the
    instance-interrupted event, although the branch may still be resumed. *)
Theorem X13_complete_after_interruption (s : Scheduler) (tp : TaskParam)
    (r : ActionResult) (nid tid : option string) (id : string) :
  ar_status r = INTERRUPTED ->
  tp_taskId tp <> "" ->
  queue_empty s (tp_executionId tp) = true ->
  (forall t', running_entry s (tp_executionId tp) t' <> None -> t' = tp_taskId tp) ->
  events (run (exec_settle s tp (Some r)) (mkRunParams (tp_executionId tp) nid tid) id) =
    events s ++ [EvInstanceInterrupted (tp_executionId tp) INTERRUPTED (tp_nodeId tp)
                   (tp_taskId tp) (ar_detail r);
                 EvInstanceComplete (tp_executionId tp) nid tid COMPLETED].
Proof.
  intros Hst Ht Hq Honly.
  unfold exec_settle. rewrite Hst. simpl.
  set (s2 := saveTaskResult (interrupted s r tp) _).
  destruct (removeTask_logs s2 (tp_executionId tp) (tp_taskId tp)) as (HQ & HE & _ & _).
  rewrite run_events. simpl.
  rewrite (queue_empty_nodeQueueMap s) by (rewrite HQ; reflexivity).
  rewrite Hq, running_empty_remove_last; [|exact Ht|exact Honly].
  simpl. rewrite HE. unfold s2. simpl. rewrite <- app_assoc. reflexivity.
Qed.

Lemma X13_complete_after_interruption_witness :
  let s := run (addTask (init 0) ex_node) (mkRunParams "e1" None None) "t1" in
  let tp := mkTaskParam "e1" "n1" "t1" in
  let r := mkActionResult INTERRUPTED "task" "{}" [mkEdge "n2"] "form42" in
  ar_status r = INTERRUPTED /\ tp_taskId tp <> "" /\ queue_empty s "e1" = true /\
  events (run (exec_settle s tp (Some r)) (mkRunParams "e1" None None) "t2") =
    [EvInstanceInterrupted "e1" INTERRUPTED "n1" "t1" "form42";
     EvInstanceComplete "e1" None None COMPLETED].
Proof.
  intros s tp r.
  assert (Honly : forall t', running_entry s "e1" t' <> None -> t' = "t1").
  { intros t' H. unfold s in H.
    rewrite (run_launch (addTask (init 0) ex_node) (mkRunParams "e1" None None) "t1"
               ex_node [] eq_refl) in H. unfold exec_start in H.
    rewrite running_entry_start_call, running_entry_push in H.
    destruct (decide _) as [[_ ->]|_]; [reflexivity|].
    exfalso; apply H; reflexivity. }
  split; [reflexivity|]. split; [discriminate|]. split; [reflexivity|].
  apply (X13_complete_after_interruption s tp r None None "t2");
    [reflexivity|discriminate|reflexivity|exact Honly].
Defined.

End SchedulerProps.

(** ** FIFO order of the ready queue *)

(** The operations that touch the ready queue of one instance: [addTask],
    [run], and [next] settling a task of that instance. *)
Inductive QueueOp :=
| OpAdd (nodeId : string)
| OpRun (nodeId taskId : option string) (newTaskId : string)
| OpNext (nodeId taskId nodeType : string) (properties : Payload)
    (outgoing : list Edge) (newTaskId : string).

Definition apply_op (s : Scheduler) (e : string) (op : QueueOp) : Scheduler :=
  match op with
  | OpAdd n => addTask s (mkNodeParam e n)
  | OpRun nid tid id => run s (mkRunParams e nid tid) id
  | OpNext n t nt p out id => next s (mkTaskResult e n t nt p out None) id
  end.

Definition apply_ops (s : Scheduler) (e : string) (ops : list QueueOp) : Scheduler :=
  fold_left (fun st op => apply_op st e op) ops s.

(** The nodes an operation enqueues on the instance, in order. *)
Definition enqueued (e : string) (op : QueueOp) : list NodeParam :=
  match op with
  | OpAdd n => [mkNodeParam e n]
  | OpRun _ _ _ => []
  | OpNext _ _ _ _ out _ => map (fun item => mkNodeParam e (target item)) out
  end.

(** The nodes whose execution a list of node calls starts, in order. *)
Definition launched_nodes (cs : list NodeCall) : list NodeParam :=
  flat_map (fun c => match c with
                     | CallExecute tp => [mkNodeParam (tp_executionId tp) (tp_nodeId tp)]
                     | CallResume _ => []
                     end) cs.

Lemma launched_nodes_app (l1 l2 : list NodeCall) :
  launched_nodes (l1 ++ l2) = launched_nodes l1 ++ launched_nodes l2.
Proof. unfold launched_nodes. apply flat_map_app. Qed.

(** One [run]: the nodes it starts, followed by the queue it leaves, are
    the queue it found. *)
Lemma run_fifo_step (s : Scheduler) (rp : RunParams) (id : string) :
  exists new, calls (run s rp id) = calls s ++ new /\
    launched_nodes new ++ queue_of (run s rp id) (rp_executionId rp) =
    queue_of s (rp_executionId rp).
Proof.
  destruct (nodeQueueMap s !! rp_executionId rp) as [[|n q]|] eqn:Hl.
  2: { exists [launch_call n id].
       rewrite (SchedulerProps.run_launch s rp id n q Hl). split; [reflexivity|].
       unfold queue_of; simpl. rewrite lookup_insert_eq, Hl.
       destruct n; reflexivity. }
  all: assert (Hq : queue_empty s (rp_executionId rp) = true)
         by (unfold queue_empty; rewrite Hl; reflexivity);
    exists []; split; [rewrite run_calls_empty by exact Hq; symmetry; apply app_nil_r|];
    simpl; unfold queue_of;
    rewrite SchedulerProps.run_settled_if by exact Hq;
    destruct (SchedulerProps.hasRunningTask_fields s (rp_executionId rp)) as (HQ & _);
    destruct (hasRunningTask s (rp_executionId rp)).1; simpl; rewrite HQ; reflexivity.
Qed.

Lemma next_before_run_fifo (s : Scheduler) (d : TaskResult) :
  calls (next_before_run s d) = calls s /\
  queue_of (next_before_run s d) (tr_executionId d) =
    queue_of s (tr_executionId d) ++
    map (fun item => mkNodeParam (tr_executionId d) (target item)) (tr_outgoing d).
Proof.
  unfold next_before_run.
  set (s1 := enqueue_outgoing s (tr_executionId d) (tr_outgoing d)).
  destruct (enqueue_outgoing_logs s (tr_executionId d) (tr_outgoing d)) as (_ & _ & Hc1 & _).
  fold s1 in Hc1.
  destruct (removeTask_logs (saveTaskResult s1 d) (tr_executionId d) (tr_taskId d))
    as (Hq & _ & _ & Hc).
  split; [rewrite Hc; exact Hc1|].
  unfold queue_of at 1. rewrite Hq. simpl.
  rewrite <- enqueue_outgoing_queue_of. reflexivity.
Qed.

Lemma apply_op_fifo (s : Scheduler) (e : string) (op : QueueOp) :
  exists new, calls (apply_op s e op) = calls s ++ new /\
    launched_nodes new ++ queue_of (apply_op s e op) e = queue_of s e ++ enqueued e op.
Proof.
  destruct op as [n|nid tid id|n t nt p out id]; simpl.
  - exists []. split; [symmetry; apply app_nil_r|].
    simpl. rewrite addTask_queue_of. simpl. rewrite String.eqb_refl. reflexivity.
  - destruct (run_fifo_step s (mkRunParams e nid tid) id) as (new & Hc & Hq).
    exists new. split; [exact Hc|]. simpl in Hq. rewrite Hq. symmetry; apply app_nil_r.
  - set (d := mkTaskResult e n t nt p out None).
    destruct (next_before_run_fifo s d) as [Hc0 Hq0].
    destruct (run_fifo_step (next_before_run s d)
                (mkRunParams e (Some n) (Some t)) id) as (new & Hc & Hq).
    exists new. change (next s d id) with
      (run (next_before_run s d) (mkRunParams e (Some n) (Some t)) id).
    split; [rewrite Hc, Hc0; reflexivity|].
    simpl in Hq. rewrite Hq. exact Hq0.
Qed.

(** C3. FIFO per instance: [addTask] appends at the tail of the instance's
    queue; [run] on a non-empty queue removes its head and starts exactly
    that node; and for every sequence of [addTask], [run] and [next] calls
    on one instance, the nodes started, in the order they are started,
    followed by the nodes still queued, are the initial queue followed by
    the enqueued nodes in the order they were enqueued. *)
Theorem C3_fifo_launch_order :
  (forall (s : Scheduler) (np : NodeParam),
     queue_of (addTask s np) (np_executionId np) =
     queue_of s (np_executionId np) ++ [np]) /\
  (forall (s : Scheduler) (rp : RunParams) (id : string) (n : NodeParam) (q : list NodeParam),
     queue_of s (rp_executionId rp) = n :: q ->
     queue_of (run s rp id) (rp_executionId rp) = q /\
     calls (run s rp id) = calls s ++ [launch_call n id]) /\
  (forall (s : Scheduler) (e : string) (ops : list QueueOp),
     exists new, calls (apply_ops s e ops) = calls s ++ new /\
       launched_nodes new ++ queue_of (apply_ops s e ops) e =
       queue_of s e ++ flat_map (enqueued e) ops).
Proof.
  split; [|split].
  - intros s np. rewrite addTask_queue_of, String.eqb_refl. reflexivity.
  - intros s rp id n q Hq.
    assert (Hl : nodeQueueMap s !! rp_executionId rp = Some (n :: q)).
    { unfold queue_of in Hq. destruct (nodeQueueMap s !! rp_executionId rp) as [l|];
        [rewrite Hq; reflexivity|discriminate]. }
    rewrite (SchedulerProps.run_launch s rp id n q Hl). split; [|reflexivity].
    unfold queue_of; simpl. rewrite lookup_insert_eq. reflexivity.
  - intros s e ops. revert s. induction ops as [|op ops IH]; intros s.
    + exists []. simpl. rewrite !app_nil_r. split; reflexivity.
    + destruct (apply_op_fifo s e op) as (new1 & Hc1 & Hq1).
      destruct (IH (apply_op s e op)) as (new2 & Hc2 & Hq2).
      exists (new1 ++ new2). unfold apply_ops in *; simpl.
      split; [rewrite Hc2, Hc1, app_assoc; reflexivity|].
      rewrite launched_nodes_app, <- app_assoc, Hq2, app_assoc, Hq1, <- app_assoc.
      reflexivity.
Qed.
